(** * The tagging layer of the CCG parser: [src/cpp/chainer_tagger.h]

    A shallow embedding of [myccg::tagger::ChainerTagger] and of the
    abstract [Tagger] interface it implements, with the properties of the
    category inventory and of the score buffer stated over it.

    Conventions.
    - A C++ call has one of three outcomes: it returns a value, it throws,
      or its behaviour is undefined (an unchecked access out of bounds, a
      read through a dangling reference).  See [outcome].
    - [int] is the 32-bit two's complement integer, [size_t] the 64-bit
      unsigned integer; both are carried as [Z] with the conversions
      between them written out.
    - A [std::vector] is a [list]; a [const std::string&] is an address
      into a memory of string objects, so that aliasing is visible.
    - The file system is a finite map from path names to file contents; a
      path is mapped when the file exists and can be read. *)

From Stdlib Require Import ZArith Lia.
From stdpp Require Import gmap strings list.

Local Open Scope Z_scope.

(** ** Outcomes of a call *)

Inductive error : Type :=
  | LoadError
  | OutOfRange
  | PredictionError.

Inductive outcome (A : Type) : Type :=
  | Returns (a : A)
  | Raises (e : error)
  | Undefined.

Arguments Returns {A} a.
Arguments Raises {A} e.
Arguments Undefined {A}.

Definition outcome_map {A B : Type} (f : A → B) (o : outcome A) : outcome B :=
  match o with
  | Returns a => Returns (f a)
  | Raises e => Raises e
  | Undefined => Undefined
  end.

(** ** Machine integers *)

Definition INT_MAX : Z := 2147483647.
Definition INT_MIN : Z := -2147483648.
Definition SIZE_MAX : Z := 18446744073709551615.

(** The values an [int] can hold. *)
Definition int_range (n : Z) : Prop := INT_MIN ≤ n ≤ INT_MAX.

(** Conversion of an [int] to [size_t], as happens to [idx] in
    [targets_[idx]]: reduction modulo 2^64. *)
Definition size_t_of_int (n : Z) : Z := n mod (SIZE_MAX + 1).

(** Conversion of a [size_t] to [int], as happens to [targets_.size()] in
    the [return] of [TargetSize]: the value modulo 2^32 read as a signed
    number. *)
Definition int_of_size_t (n : Z) : Z :=
  let m := n mod 4294967296 in
  if m <? 2147483648 then m else m - 4294967296.

(** No [std::vector] holds more than [PTRDIFF_MAX] elements. *)
Definition vector_max_size : Z := 9223372036854775807.

(** [v[n]] for a [std::vector] [v] and a [size_t] [n]: no bounds check. *)
Definition vector_at {A : Type} (v : list A) (n : Z) : outcome A :=
  if n <? Z.of_nat (length v) then
    match v !! Z.to_nat n with
    | Some x => Returns x
    | None => Undefined
    end
  else Undefined.

(** ** Text resources *)

Definition newline : Ascii.ascii := Ascii.ascii_of_nat 10.

(** Modelled from the spec: the reading of the category list, a text
    resource with one category per line, by [utils::load_category_list]
    (declared in [utils.h], which the sources do not hold).  The lines of
    a text are taken as successive [getline] calls deliver them: a line
    ends at a newline character or at the end of the text, and a final
    newline does not open one more line. *)
Fixpoint getlines (cur : string) (s : string) : list string :=
  match s with
  | EmptyString => if decide (cur = "") then [] else [cur]
  | String c rest =>
      if decide (c = newline) then cur :: getlines "" rest
      else getlines (cur +:+ String c "") rest
  end.

(** Modelled from the spec: all the lines of a text, see [getlines]. *)
Definition lines (s : string) : list string := getlines "" s.

(** Modelled from the spec: the lines of the category list that carry a
    category are the non-empty ones, in file order (the loader of
    [utils.h], see [getlines]). *)
Definition category_lines (content : string) : list string :=
  filter (λ l, l ≠ "") (lines content).

(** The resource has one category per line: none of its lines is empty. *)
Definition one_category_per_line (content : string) : Prop :=
  Forall (λ l, l ≠ "") (lines content).

Section Tagger.

(** [cat::Category] and its parser come from [cat.h], the score type is
    [float] and the scores come from the inference mechanism; none of
    them is inspected here. *)
Context {Category : Type} `{!EqDecision Category}.
Context {Score : Type}.

(** [Parse line] is the interned category a line denotes, if the line is
    a well-formed category. *)
Variable Parse : string → option Category.

(** [infer tokens i c] is the score the inference mechanism gives to
    category [c] for the token at position [i] of the sentence. *)
Variable infer : list string → nat → Category → Score.

(** Modelled from the spec: the body of [utils::load_category_list], which
    [utils.h] declares and the sources do not hold.  The category list is
    a text resource with one category per line, file order defining index
    order.  Loading fails with [LoadError] when the resource is missing
    or unreadable, when it is empty, when a line is not a well-formed
    category and when a category occurs twice. *)
Definition parse_category_list (resource : option string)
  : outcome (list Category) :=
  match resource with
  | None => Raises LoadError
  | Some content =>
      match category_lines content with
      | [] => Raises LoadError
      | ls =>
          match mapM Parse ls with
          | None => Raises LoadError
          | Some cats =>
              if decide (NoDup cats) then Returns cats
              else Raises LoadError
          end
      end
  end.

(** Modelled from the spec: [utils::load_category_list] applied to a file
    name; it reads that file and no other. *)
Definition load_category_list (fs : gmap string string) (filename : string)
  : outcome (list Category) :=
  parse_category_list (fs !! filename).

(** ** [class ChainerTagger]

    [model_] is a reference member ([const std::string&]): it holds the
    address of the string it was bound to, not a copy of it. *)
Record ChainerTagger : Type := {
  model_ : positive;
  targets_ : list Category;
}.

(** [ChainerTagger(const std::string& model)
      : model_(model),
        targets_(utils::load_category_list(model + "/target.txt")) {}]

    [mem] is the memory of string objects at the time of the call and
    [model] the address the parameter refers to.  Binding [model_] does
    not read the string; building the file name does.  An exception of
    the loader leaves the constructor.  [load] stands for
    [utils::load_category_list]: what it does with the file name it is
    given. *)
Definition ChainerTagger_ctor_with (load : string → outcome (list Category))
    (mem : gmap positive string) (model : positive)
  : outcome ChainerTagger :=
  match mem !! model with
  | None => Undefined
  | Some path =>
      outcome_map (λ ts, {| model_ := model; targets_ := ts |})
        (load (path +:+ "/target.txt"))
  end.

(** The constructor over a file system, with the loader of the spec. *)
Definition ChainerTagger_ctor (fs : gmap string string)
    (mem : gmap positive string) (model : positive)
  : outcome ChainerTagger :=
  ChainerTagger_ctor_with (load_category_list fs) mem model.

(** [targets_.size()], the number of categories of the inventory. *)
Definition Size (t : ChainerTagger) : Z := Z.of_nat (length (targets_ t)).

(** [int TargetSize() const { return this->targets_.size(); }] *)
Definition TargetSize (t : ChainerTagger) : Z := int_of_size_t (Size t).

(** [const cat::Category* TagAt(int idx) const { return targets_[idx]; }] *)
Definition TagAt (t : ChainerTagger) (idx : Z) : outcome Category :=
  vector_at (targets_ t) (size_t_of_int idx).

(** Reading the path through [model_] in a later memory [mem]. *)
Definition read_model (mem : gmap positive string) (t : ChainerTagger)
  : outcome string :=
  match mem !! model_ t with
  | Some path => Returns path
  | None => Undefined
  end.

(** Modelled from the spec: the body of [ChainerTagger::predict]; the
    header only declares it, as a [const] member.  The scores of one
    token: [TargetSize()] of them, the one at offset [j] being the score
    of [TagAt(j)]. *)
Definition segment (t : ChainerTagger) (tokens : list string) (i : nat)
  : list Score :=
  omap (λ j, match TagAt t (Z.of_nat j) with
             | Returns c => Some (infer tokens i c)
             | _ => None
             end)
       (seq 0 (Z.to_nat (TargetSize t))).

(** Modelled from the spec: the body of [ChainerTagger::predict], see
    [segment].  The header passes the sentence as one [std::string]; the
    spec speaks of the ordered sequence of its token strings, which is
    what the model takes.  An empty sentence is a [PredictionError];
    otherwise the buffer holds the segments of the tokens one after the
    other. *)
Definition predict (t : ChainerTagger) (tokens : list string)
  : outcome (list Score) :=
  match tokens with
  | [] => Raises PredictionError
  | _ => Returns (mjoin (segment t tokens <$> seq 0 (length tokens)))
  end.

(** ** The interface as a transition system

    The three members of [Tagger] are [const]: a call hands back the
    object it was given. *)
Inductive call : Type :=
  | CallPredict (tokens : list string)
  | CallTargetSize
  | CallTagAt (idx : Z).

Inductive reply : Type :=
  | Scores (o : outcome (list Score))
  | Count (n : Z)
  | Tag (o : outcome Category).

Definition step (t : ChainerTagger) (c : call) : ChainerTagger * reply :=
  match c with
  | CallPredict tokens => (t, Scores (predict t tokens))
  | CallTargetSize => (t, Count (TargetSize t))
  | CallTagAt idx => (t, Tag (TagAt t idx))
  end.

(** The behaviour of the call that gave this reply is undefined. *)
Definition reply_undefined (r : reply) : bool :=
  match r with
  | Scores Undefined | Tag Undefined => true
  | _ => false
  end.

(** A sequence of calls.  A call that throws leaves the backend usable
    and the sequence goes on; a call whose behaviour is undefined ends
    it: its reply is the last one, and nothing is said of the calls
    that would follow. *)
Fixpoint run (t : ChainerTagger) (cs : list call)
  : ChainerTagger * list reply :=
  match cs with
  | [] => (t, [])
  | c :: cs' =>
      let '(t1, r) := step t c in
      if reply_undefined r then (t1, [r])
      else
        let '(t2, rs) := run t1 cs' in
        (t2, r :: rs)
  end.

End Tagger.

Arguments ChainerTagger Category : clear implicits.
Arguments reply Category Score : clear implicits.

(** ** A model directory

    The directory [model] of the end-to-end scenario: its category list
    holds [NP], [S/NP] and [S\NP], each on a line of its own.  Categories
    are taken in their canonical string form, every non-empty line being
    one, and a score is a number. *)
Definition example_parse (line : string) : option string := Some line.

Definition example_infer (tokens : list string) (i : nat) (c : string) : Z :=
  Z.of_nat (i + String.length c).

Definition example_content : string :=
  "NP" +:+ String newline "S/NP" +:+ String newline "S\NP" +:+ String newline "".

Definition example_fs : gmap string string :=
  {[ "model/target.txt" := example_content ]}.

(** The caller's path string lives at address [1]. *)
Definition example_mem : gmap positive string := {[ 1%positive := "model" ]}.

Definition example_tagger : ChainerTagger string :=
  {| model_ := 1%positive; targets_ := ["NP"; "S/NP"; "S\NP"] |}.

(** An inventory of 2^31 distinct categories, each known by its number:
    one category more than an [int] can count. *)
Definition huge_tagger : ChainerTagger Z :=
  {| model_ := 1%positive; targets_ := seqZ 0 2147483648 |}.

(** The backend [t], constructed from the caller's string at address
    [model], holds that string only during construction: what is read
    through the backend afterwards does not depend on the caller's
    string, being the same in any two memories that differ at most at
    [model]. *)
Definition path_held_transiently {Category : Type} (model : positive)
    (t : ChainerTagger Category) : Prop :=
  ∀ mem1 mem2 : gmap positive string,
    (∀ a, a ≠ model → mem1 !! a = mem2 !! a) →
    read_model mem1 t = read_model mem2 t.

(** A category list is valid when it is not empty, has one category per
    line, each of them well formed, and names no category twice. *)
Definition valid_category_list {Category : Type}
    (Parse : string → option Category) (content : string) : Prop :=
  lines content ≠ [] ∧
  one_category_per_line content ∧
  ∃ cats, mapM Parse (lines content) = Some cats ∧ NoDup cats.

(** A model directory is valid when its category list can be read and is
    valid. *)
Definition valid_model_directory {Category : Type}
    (Parse : string → option Category) (fs : gmap string string)
    (path : string) : Prop :=
  ∃ content, fs !! (path +:+ "/target.txt") = Some content ∧
             valid_category_list Parse content.

(** * Properties *)

(** ** Integer conversions and unchecked indexing *)

Lemma int_of_size_t_id (n : Z) : 0 ≤ n ≤ INT_MAX → int_of_size_t n = n.
Proof.
  unfold int_of_size_t, INT_MAX. intros Hn.
  rewrite Z.mod_small by lia.
  destruct (Z.ltb_spec n 2147483648); lia.
Qed.

Lemma int_of_size_t_upper (n : Z) : int_of_size_t n ≤ INT_MAX.
Proof.
  unfold int_of_size_t, INT_MAX.
  pose proof (Z.mod_pos_bound n 4294967296 eq_refl) as Hm.
  destruct (Z.ltb_spec (n mod 4294967296) 2147483648); lia.
Qed.

Lemma int_of_size_t_le (n : Z) : 0 ≤ n → int_of_size_t n ≤ n.
Proof.
  unfold int_of_size_t. intros Hn.
  pose proof (Z.mod_le n 4294967296 Hn eq_refl) as Hle.
  pose proof (Z.mod_pos_bound n 4294967296 eq_refl) as Hm.
  destruct (Z.ltb_spec (n mod 4294967296) 2147483648); lia.
Qed.

Lemma size_t_of_int_nonneg (n : Z) : 0 ≤ n ≤ SIZE_MAX → size_t_of_int n = n.
Proof. unfold size_t_of_int, SIZE_MAX. intros Hn. apply Z.mod_small. lia. Qed.

Lemma size_t_of_int_neg (n : Z) :
  INT_MIN ≤ n < 0 → size_t_of_int n = n + SIZE_MAX + 1.
Proof.
  unfold size_t_of_int, SIZE_MAX, INT_MIN. intros Hn.
  symmetry. apply (Z.mod_unique_pos _ _ (-1)); lia.
Qed.

Lemma vector_at_Returns {A : Type} (v : list A) (n : Z) (x : A) :
  0 ≤ n → v !! Z.to_nat n = Some x → vector_at v n = Returns x.
Proof.
  intros Hn Hx. unfold vector_at.
  apply lookup_lt_Some in Hx as Hlt.
  destruct (Z.ltb_spec n (Z.of_nat (length v))); [|lia].
  by rewrite Hx.
Qed.

Lemma vector_at_Undefined {A : Type} (v : list A) (n : Z) :
  Z.of_nat (length v) ≤ n → vector_at v n = Undefined.
Proof.
  intros Hn. unfold vector_at.
  destruct (Z.ltb_spec n (Z.of_nat (length v))); [lia|done].
Qed.

Lemma vector_at_not_Raises {A : Type} (v : list A) (n : Z) (e : error) :
  vector_at v n ≠ Raises e.
Proof.
  unfold vector_at.
  destruct (n <? Z.of_nat (length v)); [|done].
  by destruct (v !! Z.to_nat n).
Qed.

Section Properties.

Context {Category : Type} `{!EqDecision Category} {Score : Type}.
Variable Parse : string → option Category.
Variable infer : list string → nat → Category → Score.

Implicit Types (t : ChainerTagger Category) (fs : gmap string string).
Implicit Types (mem : gmap positive string) (model : positive).

Lemma Size_nonneg t : 0 ≤ Size t.
Proof. unfold Size. lia. Qed.

Lemma TagAt_lookup t (i : Z) (c : Category) :
  0 ≤ i ≤ INT_MAX → targets_ t !! Z.to_nat i = Some c → TagAt t i = Returns c.
Proof.
  intros Hi Hc. unfold TagAt.
  rewrite size_t_of_int_nonneg by (unfold INT_MAX, SIZE_MAX in *; lia).
  apply vector_at_Returns; [lia|done].
Qed.

Lemma TagAt_in_range t (i : Z) :
  0 ≤ i < Size t → int_range i →
  ∃ c, targets_ t !! Z.to_nat i = Some c ∧ TagAt t i = Returns c.
Proof.
  intros Hi [_ Hmax].
  destruct (lookup_lt_is_Some_2 (targets_ t) (Z.to_nat i)) as [c Hc].
  { unfold Size in Hi. lia. }
  exists c. split; [done|]. apply TagAt_lookup; [lia|done].
Qed.

Lemma TagAt_out_of_range t (idx : Z) :
  int_range idx → Size t ≤ vector_max_size → ¬ (0 ≤ idx < Size t) →
  TagAt t idx = Undefined.
Proof.
  intros [Hmin Hmax] Hfit Hout. unfold TagAt. apply vector_at_Undefined.
  fold (Size t).
  destruct (Z.lt_ge_cases idx 0) as [Hneg|Hpos].
  - rewrite size_t_of_int_neg by lia.
    unfold vector_max_size, INT_MIN, SIZE_MAX in *. lia.
  - rewrite size_t_of_int_nonneg by (unfold INT_MAX, SIZE_MAX in *; lia).
    lia.
Qed.

Lemma TagAt_not_Raises t (idx : Z) (e : error) : TagAt t idx ≠ Raises e.
Proof. apply vector_at_not_Raises. Qed.

(** ** The category list and the constructor *)

Lemma category_lines_all (content : string) :
  one_category_per_line content → category_lines content = lines content.
Proof.
  unfold one_category_per_line, category_lines.
  induction 1 as [|line ls Hline _ IH]; [done|].
  rewrite filter_cons_True by done. by rewrite IH.
Qed.

Lemma parse_category_list_Returns (resource : option string) (cats : list Category) :
  parse_category_list Parse resource = Returns cats ↔
  ∃ content, resource = Some content ∧ category_lines content ≠ [] ∧
             mapM Parse (category_lines content) = Some cats ∧ NoDup cats.
Proof.
  unfold parse_category_list. split.
  - destruct resource as [content|]; [|done].
    destruct (category_lines content) as [|l ls] eqn:Hls; [done|].
    destruct (mapM Parse (l :: ls)) as [cs|] eqn:Hcs; [|done].
    destruct (decide (NoDup cs)) as [Hnd|]; [|done].
    intros [= <-]. exists content. by rewrite Hls.
  - intros (content & -> & Hne & Hcs & Hnd).
    destruct (category_lines content) as [|l ls]; [done|].
    rewrite Hcs. by rewrite decide_True.
Qed.

Lemma parse_category_list_outcome (resource : option string) :
  (∃ cats, parse_category_list Parse resource = Returns cats) ∨
  parse_category_list Parse resource = Raises LoadError.
Proof.
  unfold parse_category_list.
  destruct resource as [content|]; [|by right].
  destruct (category_lines content) as [|l ls]; [by right|].
  destruct (mapM Parse (l :: ls)) as [cs|]; [|by right].
  destruct (decide (NoDup cs)); [left; by eexists|by right].
Qed.

Lemma parse_category_list_duplicate (content : string) (a b : nat) (line : string) :
  a ≠ b →
  category_lines content !! a = Some line →
  category_lines content !! b = Some line →
  parse_category_list Parse (Some content) = Raises LoadError.
Proof.
  intros Hab Ha Hb.
  destruct (parse_category_list_outcome (Some content)) as [[cats Hcats]|]; [|done].
  apply parse_category_list_Returns in Hcats
    as (content' & [= <-] & _ & Hmap & Hnd).
  apply mapM_Some in Hmap.
  destruct (Forall2_lookup_l _ _ _ _ _ Hmap Ha) as (ca & Hca & Hpa).
  destruct (Forall2_lookup_l _ _ _ _ _ Hmap Hb) as (cb & Hcb & Hpb).
  assert (ca = cb) as -> by congruence.
  by destruct (Hab (NoDup_lookup _ _ _ _ Hnd Hca Hcb)).
Qed.

Lemma ChainerTagger_ctor_with_path (load : string → outcome (list Category))
    mem model (path : string) :
  mem !! model = Some path →
  outcome_map targets_ (ChainerTagger_ctor_with load mem model)
  = load (path +:+ "/target.txt").
Proof.
  intros Hpath. unfold ChainerTagger_ctor_with. rewrite Hpath.
  by destruct (load _).
Qed.

Lemma ChainerTagger_ctor_Returns fs mem model t :
  ChainerTagger_ctor Parse fs mem model = Returns t ↔
  ∃ path, mem !! model = Some path ∧ model_ t = model ∧
          parse_category_list Parse (fs !! (path +:+ "/target.txt"))
          = Returns (targets_ t).
Proof.
  unfold ChainerTagger_ctor, ChainerTagger_ctor_with, load_category_list. split.
  - destruct (mem !! model) as [path|]; [|done].
    destruct (parse_category_list _ _) as [cats| |] eqn:Hload; [|done..].
    intros [= <-]. by exists path.
  - intros (path & -> & <- & ->). by destruct t.
Qed.

Lemma ChainerTagger_ctor_Raises fs mem model (path : string) :
  mem !! model = Some path →
  parse_category_list Parse (fs !! (path +:+ "/target.txt")) = Raises LoadError →
  ChainerTagger_ctor Parse fs mem model = Raises LoadError.
Proof.
  intros Hpath Hload. unfold ChainerTagger_ctor, ChainerTagger_ctor_with, load_category_list.
  by rewrite Hpath, Hload.
Qed.

(** The index order of a loaded inventory is the order of the category
    lines of the resource, whatever blank lines lie between them. *)
Lemma ChainerTagger_ctor_index_order fs mem model (path content : string) t :
  mem !! model = Some path →
  fs !! (path +:+ "/target.txt") = Some content →
  ChainerTagger_ctor Parse fs mem model = Returns t →
  Size t = Z.of_nat (length (category_lines content)) ∧
  ∀ i, 0 ≤ i < Size t → int_range i →
       ∃ line c, category_lines content !! Z.to_nat i = Some line ∧
                 Parse line = Some c ∧ TagAt t i = Returns c.
Proof.
  intros Hpath Hfile Hctor.
  apply ChainerTagger_ctor_Returns in Hctor as (path' & Hpath' & _ & Hload).
  assert (path' = path) as -> by congruence.
  rewrite Hfile in Hload.
  apply parse_category_list_Returns in Hload
    as (content' & [= <-] & _ & Hmap & _).
  apply mapM_Some in Hmap.
  split.
  - unfold Size. by rewrite (Forall2_length _ _ _ Hmap).
  - intros i Hi Hint.
    destruct (TagAt_in_range t i Hi Hint) as (c & Hc & Htag).
    destruct (Forall2_lookup_r _ _ _ _ _ Hmap Hc) as (line & Hline & Hparse).
    by exists line, c.
Qed.

(** ** The inventory of a constructed backend *)

(** C1: for every valid model directory, construction returns a backend
    whose inventory has as many entries as the category list has
    non-empty lines, and for every [int] index [i] in [[0, Size())],
    [TagAt(i)] returns the category written on line [i] (counted from 0)
    of the list: file order is index order. *)
Theorem C1_inventory_follows_category_list fs mem model (path : string) :
  mem !! model = Some path →
  valid_model_directory Parse fs path →
  ∃ t content,
    ChainerTagger_ctor Parse fs mem model = Returns t ∧
    fs !! (path +:+ "/target.txt") = Some content ∧
    Size t = Z.of_nat (length (category_lines content)) ∧
    ∀ i, 0 ≤ i < Size t → int_range i →
         ∃ line c, lines content !! Z.to_nat i = Some line ∧
                   Parse line = Some c ∧ TagAt t i = Returns c.
Proof.
  intros Hpath (content & Hfile & Hne & Hones & cats & Hmap & Hnd).
  pose proof (category_lines_all content Hones) as Hall.
  set (t := {| model_ := model; targets_ := cats |}).
  assert (ChainerTagger_ctor Parse fs mem model = Returns t) as Hctor.
  { apply ChainerTagger_ctor_Returns. exists path. repeat split; [done|].
    rewrite Hfile. apply parse_category_list_Returns.
    exists content. by rewrite Hall. }
  exists t, content. repeat split; [done..| |].
  - by apply (ChainerTagger_ctor_index_order fs mem model path).
  - intros i Hi Hint. rewrite <- Hall.
    by apply (ChainerTagger_ctor_index_order fs mem model path content t).
Qed.

(** C5: when the category list under the model directory is missing,
    unreadable or empty, construction raises [LoadError], so that no
    backend exists on which [predict] could be called; a construction
    that returns never yields an empty inventory, and [predict] never
    reports a [LoadError]. *)
Theorem C5_construction_fails_with_LoadError fs mem model (path : string) :
  mem !! model = Some path →
  ((fs !! (path +:+ "/target.txt") = None ∨
    ∃ content, fs !! (path +:+ "/target.txt") = Some content ∧
               category_lines content = []) →
   ChainerTagger_ctor Parse fs mem model = Raises LoadError) ∧
  (∀ t, ChainerTagger_ctor Parse fs mem model = Returns t → 0 < Size t) ∧
  (∀ t tokens, predict infer t tokens ≠ Raises LoadError).
Proof.
  intros Hpath. repeat split.
  - intros [Hnone|(content & Hfile & Hempty)];
      apply (ChainerTagger_ctor_Raises fs mem model path Hpath).
    + by rewrite Hnone.
    + rewrite Hfile. unfold parse_category_list. by rewrite Hempty.
  - intros t Hctor.
    apply ChainerTagger_ctor_Returns in Hctor as (path' & _ & _ & Hload).
    apply parse_category_list_Returns in Hload as (content & _ & Hne & Hmap & _).
    apply mapM_Some, Forall2_length in Hmap. unfold Size.
    destruct (category_lines content); [done|]. simpl in Hmap. lia.
  - intros t [|token tokens]; done.
Qed.

(** C7: the inventory of a constructed backend holds no category twice,
    [TagAt(i) ≠ TagAt(j)] for all distinct indices [i], [j] in range; and
    a category list in which an entry occurs twice makes construction
    raise [LoadError]. *)
Theorem C7_inventory_has_no_duplicates fs mem model (path : string) :
  mem !! model = Some path →
  (∀ t i j, ChainerTagger_ctor Parse fs mem model = Returns t →
            int_range i → int_range j →
            0 ≤ i < Size t → 0 ≤ j < Size t → i ≠ j →
            TagAt t i ≠ TagAt t j) ∧
  (∀ content (a b : nat) line,
      fs !! (path +:+ "/target.txt") = Some content →
      a ≠ b →
      category_lines content !! a = Some line →
      category_lines content !! b = Some line →
      ChainerTagger_ctor Parse fs mem model = Raises LoadError).
Proof.
  intros Hpath. split.
  - intros t i j Hctor Hi Hj Hri Hrj Hij Heq.
    apply ChainerTagger_ctor_Returns in Hctor as (path' & _ & _ & Hload).
    apply parse_category_list_Returns in Hload as (content & _ & _ & _ & Hnd).
    destruct (TagAt_in_range t i Hri Hi) as (ci & Hci & Hti).
    destruct (TagAt_in_range t j Hrj Hj) as (cj & Hcj & Htj).
    assert (ci = cj) as -> by congruence.
    pose proof (NoDup_lookup _ _ _ _ Hnd Hci Hcj). lia.
  - intros content a b line Hfile Hab Ha Hb.
    apply (ChainerTagger_ctor_Raises fs mem model path Hpath).
    rewrite Hfile. by apply (parse_category_list_duplicate content a b line).
Qed.

(** C9: for every model path [p], the category list is loaded from the
    file named [p] followed by [/target.txt], the two strings being
    concatenated as they are.  The inventory is what the loader makes of
    that one file name and does not depend on what it would make of any
    other; two backends constructed from the same path string load the
    same resource. *)
Theorem C9_category_list_location
    (load1 load2 : string → outcome (list Category))
    mem1 mem2 model1 model2 (path : string) :
  mem1 !! model1 = Some path →
  mem2 !! model2 = Some path →
  outcome_map targets_ (ChainerTagger_ctor_with load1 mem1 model1)
  = load1 (path +:+ "/target.txt") ∧
  (load1 (path +:+ "/target.txt") = load2 (path +:+ "/target.txt") →
   outcome_map targets_ (ChainerTagger_ctor_with load1 mem1 model1)
   = outcome_map targets_ (ChainerTagger_ctor_with load2 mem2 model2)).
Proof.
  intros Hpath1 Hpath2. split.
  - by apply ChainerTagger_ctor_with_path.
  - intros Hsame.
    rewrite (ChainerTagger_ctor_with_path load1 mem1 model1 path Hpath1).
    by rewrite (ChainerTagger_ctor_with_path load2 mem2 model2 path Hpath2).
Qed.

(** Over file systems: the inventory depends on the file system through
    the contents of [p/target.txt] alone. *)
Lemma ChainerTagger_ctor_frame fs1 fs2 mem model (path : string) :
  mem !! model = Some path →
  fs1 !! (path +:+ "/target.txt") = fs2 !! (path +:+ "/target.txt") →
  ChainerTagger_ctor Parse fs1 mem model = ChainerTagger_ctor Parse fs2 mem model.
Proof.
  intros Hpath Hsame.
  unfold ChainerTagger_ctor, ChainerTagger_ctor_with, load_category_list.
  by rewrite Hpath, Hsame.
Qed.

(** ** The score buffer *)

Lemma TargetSize_upper t : TargetSize t ≤ INT_MAX.
Proof. apply int_of_size_t_upper. Qed.

Lemma TargetSize_le_Size t : TargetSize t ≤ Size t.
Proof. apply int_of_size_t_le, Size_nonneg. Qed.

(** The first [k] offsets of a segment score the first [k] categories. *)
Lemma segment_prefix t (tokens : list string) (i k : nat) :
  (k ≤ length (targets_ t))%nat → Z.of_nat k ≤ INT_MAX + 1 →
  omap (λ j, match TagAt t (Z.of_nat j) with
             | Returns c => Some (infer tokens i c)
             | _ => None
             end) (seq 0 k)
  = infer tokens i <$> take k (targets_ t).
Proof.
  induction k as [|k IH]; intros Hlen Hint; [done|].
  destruct (lookup_lt_is_Some_2 (targets_ t) k) as [c Hc]; [lia|].
  rewrite seq_S, omap_app, IH by lia.
  rewrite (take_S_r _ _ c Hc), fmap_app. f_equal. simpl.
  rewrite (TagAt_lookup t (Z.of_nat k) c); [done|lia|by rewrite Nat2Z.id].
Qed.

Lemma segment_scores t (tokens : list string) (i : nat) :
  segment infer t tokens i
  = infer tokens i <$> take (Z.to_nat (TargetSize t)) (targets_ t).
Proof.
  pose proof (TargetSize_upper t). pose proof (TargetSize_le_Size t).
  apply segment_prefix; unfold Size, INT_MAX in *; lia.
Qed.

Lemma segment_length t (tokens : list string) (i : nat) :
  length (segment infer t tokens i) = Z.to_nat (TargetSize t).
Proof.
  pose proof (TargetSize_le_Size t).
  rewrite segment_scores, length_fmap, length_take_le; [done|].
  unfold Size in *. lia.
Qed.

Lemma segment_lookup t (tokens : list string) (i j : nat) :
  (j < Z.to_nat (TargetSize t))%nat →
  ∃ c, TagAt t (Z.of_nat j) = Returns c ∧
       segment infer t tokens i !! j = Some (infer tokens i c).
Proof.
  intros Hj.
  pose proof (TargetSize_upper t). pose proof (TargetSize_le_Size t).
  destruct (lookup_lt_is_Some_2 (targets_ t) j) as [c Hc].
  { unfold Size in *. lia. }
  exists c. split.
  - apply TagAt_lookup; [lia|by rewrite Nat2Z.id].
  - rewrite segment_scores, list_lookup_fmap, lookup_take_lt by done.
    by rewrite Hc.
Qed.

(** C2, as the code has it: [TargetSize()] is an [int] and can be
    negative, which no length is.  For a non-empty sentence of [n] tokens
    on a backend whose [TargetSize()] is not negative, [predict] returns
    a buffer of exactly [n × TargetSize()] scores, laid out token after
    token: within the segment of token [i], the score at offset [j] is
    the score of the category [TagAt(j)]. *)
Theorem C2_predict_buffer_layout t (tokens : list string) :
  tokens ≠ [] →
  0 ≤ TargetSize t →
  ∃ buf,
    predict infer t tokens = Returns buf ∧
    Z.of_nat (length buf) = Z.of_nat (length tokens) * TargetSize t ∧
    ∀ (i j : Z), 0 ≤ i < Z.of_nat (length tokens) → 0 ≤ j < TargetSize t →
      ∃ c, TagAt t j = Returns c ∧
           buf !! Z.to_nat (i * TargetSize t + j) = Some (infer tokens (Z.to_nat i) c).
Proof.
  intros Hne Hsize.
  assert (Forall (λ l : list Score, length l = Z.to_nat (TargetSize t))
            (segment infer t tokens <$> seq 0 (length tokens))) as Hrows.
  { apply Forall_fmap, Forall_forall. intros i _. apply segment_length. }
  exists (mjoin (segment infer t tokens <$> seq 0 (length tokens))).
  repeat split.
  - by destruct tokens.
  - rewrite length_join, (sum_list_fmap_same (Z.to_nat (TargetSize t))) by done.
    rewrite length_fmap, length_seq. lia.
  - intros i j Hi Hj.
    destruct (segment_lookup t tokens (Z.to_nat i) (Z.to_nat j)) as (c & Htag & Hscore);
      [lia|].
    rewrite Z2Nat.id in Htag by lia.
    exists c. split; [done|].
    replace (Z.to_nat (i * TargetSize t + j))
      with (Z.to_nat i * Z.to_nat (TargetSize t) + Z.to_nat j)%nat by nia.
    apply join_lookup_Some_same_length'; [done|lia|].
    exists (segment infer t tokens (Z.to_nat i)). split; [|done].
    rewrite list_lookup_fmap, lookup_seq_lt by lia. done.
Qed.

(** C8: [predict] takes an ordered sequence of token strings, which has to
    be non-empty: on the empty sequence the call raises
    [PredictionError], on any other it returns a buffer; the failed call
    hands the backend back as it was, and every later call behaves as if
    the failed one had not happened. *)
Theorem C8_predict_empty_sentence t :
  predict infer t [] = Raises PredictionError ∧
  (∀ tokens, tokens ≠ [] → ∃ buf, predict infer t tokens = Returns buf) ∧
  (step infer t (CallPredict [])).1 = t ∧
  (∀ cs, run infer (step infer t (CallPredict [])).1 cs = run infer t cs).
Proof.
  repeat split.
  intros [|token tokens] Hne; [done|]. by eexists.
Qed.

(** ** Indexing, sizes and the state of the backend *)

(** C3, as the code has it: [TagAt] makes no bounds check.  For every
    [int] index outside [[0, Size())] the access is out of the bounds of
    [targets_]: its behaviour is undefined and no [OutOfRange], nor any
    other condition, is raised. *)
Theorem C3_TagAt_is_unchecked t (idx : Z) :
  int_range idx →
  Size t ≤ vector_max_size →
  ¬ (0 ≤ idx < Size t) →
  TagAt t idx = Undefined ∧ ∀ e, TagAt t idx ≠ Raises e.
Proof.
  intros Hint Hfit Hout. split.
  - by apply TagAt_out_of_range.
  - intros e. apply TagAt_not_Raises.
Qed.

(** C4, as the code has it: the backend stays bound to the model path
    after construction.  [model_] refers to the very string the caller
    supplied, no copy being made: a read through it gives what that
    string holds at the time of the read, the path of the construction
    in the memory of the construction, and is undefined once the string
    is gone.  The inventory is the category list found under that path
    when the backend was constructed, and [TargetSize] and [TagAt]
    depend on the inventory alone, not on [model_]. *)
Theorem C4_model_path_is_retained fs mem model t :
  ChainerTagger_ctor Parse fs mem model = Returns t →
  ∃ path, mem !! model = Some path ∧
          model_ t = model ∧
          read_model mem t = Returns path ∧
          (∀ mem', read_model mem' t = match mem' !! model with
                                       | Some path' => Returns path'
                                       | None => Undefined
                                       end) ∧
          load_category_list Parse fs (path +:+ "/target.txt")
          = Returns (targets_ t) ∧
          (∀ t', targets_ t' = targets_ t →
                 TargetSize t' = TargetSize t ∧
                 ∀ idx, TagAt t' idx = TagAt t idx).
Proof.
  intros Hctor.
  apply ChainerTagger_ctor_Returns in Hctor as (path & Hpath & Hmodel & Hload).
  exists path. split; [done|]. split; [done|]. split; [|split; [|split]].
  - unfold read_model. by rewrite Hmodel, Hpath.
  - intros mem'. unfold read_model. by rewrite Hmodel.
  - done.
  - intros t' Hsame. unfold TargetSize, Size, TagAt. by rewrite Hsame.
Qed.

(** A backend that keeps the path in a string of its own, at another
    address than the caller's, holds the caller's string transiently. *)
Lemma path_held_transiently_own_copy (model : positive) t :
  model_ t ≠ model → path_held_transiently model t.
Proof.
  intros Hown mem1 mem2 Hsame. unfold read_model. by rewrite (Hsame _ Hown).
Qed.

Lemma run_cons t (c : call) (cs : list call) :
  run infer t (c :: cs)
  = if reply_undefined (step infer t c).2 then (t, [(step infer t c).2])
    else ((run infer t cs).1, (step infer t c).2 :: (run infer t cs).2).
Proof.
  destruct c; cbn [run step fst snd];
    try destruct (reply_undefined _); try done;
    by destruct (run infer t cs).
Qed.

Lemma run_state t (cs : list call) : (run infer t cs).1 = t.
Proof.
  induction cs as [|c cs IH]; [done|].
  rewrite run_cons. by destruct (reply_undefined _).
Qed.

Lemma run_counts t (cs : list call) :
  Forall (λ r, ∀ n, r = Count n → n = TargetSize t) (run infer t cs).2.
Proof.
  induction cs as [|c cs IH]; [by constructor|].
  assert (∀ n, (step infer t c).2 = Count n → n = TargetSize t) as Hstep.
  { destruct c; simpl; try done. by intros n [= <-]. }
  rewrite run_cons. destruct (reply_undefined _); simpl; by repeat constructor.
Qed.

(** C6, as the code has it: no call on the interface changes the
    inventory, and [TargetSize()] gives the same value on every call,
    before and after any number of [predict] calls.  That value is the
    size of the inventory converted to [int]; it equals [Size()] when the
    size is at most [INT_MAX]. *)
Theorem C6_inventory_is_immutable t (cs : list call) :
  targets_ (run infer t cs).1 = targets_ t ∧
  TargetSize (run infer t cs).1 = TargetSize t ∧
  Forall (λ r, ∀ n, r = Count n → n = TargetSize t) (run infer t cs).2 ∧
  TargetSize t = int_of_size_t (Size t) ∧
  (Size t ≤ INT_MAX → TargetSize t = Size t).
Proof.
  rewrite run_state. repeat split.
  - apply run_counts.
  - intros Hfit. apply int_of_size_t_id. pose proof (Size_nonneg t). lia.
Qed.

(** C10: [TargetSize()] is the element count of [targets_] converted to
    [int].  When the count is at most [INT_MAX] the value returned is the
    count, and every valid index is an [int] at which [TagAt] returns the
    element of [targets_] at that index; when the count exceeds [INT_MAX]
    the value returned differs from it. *)
Theorem C10_TargetSize_int_conversion t :
  (Size t ≤ INT_MAX →
   TargetSize t = Size t ∧
   ∀ i, 0 ≤ i < Size t →
        int_range i ∧
        ∃ c, targets_ t !! Z.to_nat i = Some c ∧ TagAt t i = Returns c) ∧
  (INT_MAX < Size t → TargetSize t ≠ Size t).
Proof.
  split.
  - intros Hfit. split.
    + apply int_of_size_t_id. pose proof (Size_nonneg t). lia.
    + intros i Hi.
      assert (int_range i) as Hint by (unfold int_range, INT_MIN; lia).
      split; [done|]. by apply TagAt_in_range.
  - intros Hbig. pose proof (TargetSize_upper t). lia.
Qed.

End Properties.

(** * The end-to-end scenario *)

Example example_lines : lines example_content = ["NP"; "S/NP"; "S\NP"].
Proof. reflexivity. Qed.

Example example_ctor :
  ChainerTagger_ctor example_parse example_fs example_mem 1 = Returns example_tagger.
Proof. vm_compute. reflexivity. Qed.

Example example_TargetSize : TargetSize example_tagger = 3.
Proof. reflexivity. Qed.

Example example_TagAt : TagAt example_tagger 1 = Returns "S/NP".
Proof. reflexivity. Qed.

Example example_predict :
  predict example_infer example_tagger ["dogs"; "run"]
  = Returns [2; 4; 4; 3; 5; 5].
Proof. reflexivity. Qed.

Example example_TagAt_past_the_end : TagAt example_tagger 3 = Undefined.
Proof. reflexivity. Qed.

Example example_TagAt_minus_one : TagAt example_tagger (-1) = Undefined.
Proof. reflexivity. Qed.

(** A sequence of calls ends at the call whose behaviour is undefined. *)
Example example_run_ends :
  run example_infer example_tagger [CallTargetSize; CallTagAt 7; CallTagAt 1]
  = (example_tagger, [Count 3; Tag Undefined]).
Proof. reflexivity. Qed.

(** A missing directory, an empty list and a list with a repeated entry. *)
Example example_missing_directory :
  ChainerTagger_ctor example_parse ∅ example_mem 1 = Raises LoadError.
Proof. reflexivity. Qed.

Example example_empty_list :
  ChainerTagger_ctor example_parse {[ "model/target.txt" := "" ]} example_mem 1
  = Raises LoadError.
Proof. vm_compute. reflexivity. Qed.

Example example_repeated_entry :
  ChainerTagger_ctor example_parse
    {[ "model/target.txt" := "NP" +:+ String newline "NP" ]} example_mem 1
  = Raises LoadError.
Proof. vm_compute. reflexivity. Qed.

(** The path is not normalised: with a trailing slash in the path the
    file name has two slashes, and the list under the one-slash name is
    not the one that is read. *)
Example example_trailing_slash :
  ChainerTagger_ctor example_parse example_fs {[ 1%positive := "model/" ]} 1
  = Raises LoadError.
Proof. vm_compute. reflexivity. Qed.

(** Blank lines between the categories are passed over. *)
Example example_blank_line :
  outcome_map targets_
    (ChainerTagger_ctor example_parse
       {[ "model/target.txt" := "NP" +:+ String newline (String newline "S") ]}
       example_mem 1)
  = Returns ["NP"; "S"].
Proof. vm_compute. reflexivity. Qed.

Lemma huge_tagger_distinct : NoDup (targets_ huge_tagger).
Proof. apply NoDup_seqZ. Qed.

Lemma huge_tagger_Size : Size huge_tagger = 2147483648.
Proof.
  unfold Size, huge_tagger. cbn [targets_].
  rewrite length_seqZ. by rewrite Z2Nat.id.
Qed.

Lemma huge_tagger_TargetSize : TargetSize huge_tagger = -2147483648.
Proof. unfold TargetSize. by rewrite huge_tagger_Size. Qed.

(** * The claims on the scenario *)

Lemma C1_inventory_follows_category_list_witness :
  ∃ (t : ChainerTagger string) (content : string),
    ChainerTagger_ctor example_parse example_fs example_mem 1 = Returns t ∧
    example_fs !! ("model" +:+ "/target.txt") = Some content ∧
    Size t = Z.of_nat (length (category_lines content)) ∧
    ∀ i, 0 ≤ i < Size t → int_range i →
         ∃ line c, lines content !! Z.to_nat i = Some line ∧
                   example_parse line = Some c ∧ TagAt t i = Returns c.
Proof.
  apply (C1_inventory_follows_category_list
           example_parse example_fs example_mem 1 "model").
  - reflexivity.
  - exists example_content. split; [reflexivity|].
    split; [vm_compute; discriminate|].
    split.
    + vm_compute. repeat constructor; discriminate.
    + exists ["NP"; "S/NP"; "S\NP"]. split; [reflexivity|].
      apply (bool_decide_unpack _). vm_compute. exact I.
Defined.

Lemma C2_predict_buffer_layout_witness :
  ∃ buf,
    predict example_infer example_tagger ["dogs"; "run"] = Returns buf ∧
    Z.of_nat (length buf)
    = Z.of_nat (length ["dogs"; "run"]) * TargetSize example_tagger ∧
    ∀ (i j : Z), 0 ≤ i < Z.of_nat (length ["dogs"; "run"]) →
                 0 ≤ j < TargetSize example_tagger →
      ∃ c, TagAt example_tagger j = Returns c ∧
           buf !! Z.to_nat (i * TargetSize example_tagger + j)
           = Some (example_infer ["dogs"; "run"] (Z.to_nat i) c).
Proof.
  apply (C2_predict_buffer_layout example_infer example_tagger ["dogs"; "run"]).
  - discriminate.
  - vm_compute. discriminate.
Defined.

(** The claim C2 fails on the inventory of 2^31 categories: there
    [TargetSize()] is negative, and no buffer has [n × TargetSize()]
    scores. *)
Lemma C2_buffer_length_counterexample :
  ¬ ∃ buf : list Z,
      predict (λ _ _ _, 0) huge_tagger ["dogs"] = Returns buf ∧
      Z.of_nat (length buf)
      = Z.of_nat (length ["dogs"]) * TargetSize huge_tagger.
Proof.
  intros (buf & _ & Hlen).
  rewrite huge_tagger_TargetSize in Hlen.
  change (length ["dogs"]) with 1%nat in Hlen. lia.
Qed.

Lemma C3_TagAt_is_unchecked_witness :
  TagAt example_tagger 3 = Undefined ∧
  ∀ e, TagAt example_tagger 3 ≠ Raises e.
Proof.
  apply (C3_TagAt_is_unchecked example_tagger 3).
  - unfold int_range, INT_MIN, INT_MAX. lia.
  - vm_compute. discriminate.
  - vm_compute. intros [_ Hlt]. discriminate Hlt.
Defined.

(** The claim C3 fails on the scenario: the out-of-range accesses do not
    raise [OutOfRange]. *)
Lemma C3_TagAt_raises_OutOfRange_counterexample :
  ¬ (∀ idx, int_range idx → ¬ (0 ≤ idx < Size example_tagger) →
            TagAt example_tagger idx = Raises OutOfRange).
Proof.
  intros Hraises.
  assert (TagAt example_tagger (-1) = Raises OutOfRange) as Hminus.
  { apply Hraises.
    - unfold int_range, INT_MIN, INT_MAX. lia.
    - lia. }
  vm_compute in Hminus. discriminate Hminus.
Qed.

Lemma C4_model_path_is_retained_witness :
  ∃ path, example_mem !! 1%positive = Some path ∧
          model_ example_tagger = 1%positive ∧
          read_model example_mem example_tagger = Returns path ∧
          (∀ mem', read_model mem' example_tagger
                   = match mem' !! 1%positive with
                     | Some path' => Returns path'
                     | None => Undefined
                     end) ∧
          load_category_list example_parse example_fs (path +:+ "/target.txt")
          = Returns (targets_ example_tagger) ∧
          (∀ t', targets_ t' = targets_ example_tagger →
                 TargetSize t' = TargetSize example_tagger ∧
                 ∀ idx, TagAt t' idx = TagAt example_tagger idx).
Proof.
  apply (C4_model_path_is_retained example_parse example_fs example_mem 1
           example_tagger).
  vm_compute. reflexivity.
Defined.

(** The claim C4 fails on the scenario: once the caller overwrites its
    path string, the backend reads the new contents through [model_]. *)
Lemma C4_path_held_transiently_counterexample :
  ∃ t, ChainerTagger_ctor example_parse example_fs example_mem 1 = Returns t ∧
       read_model (<[ 1%positive := "elsewhere" ]> example_mem) t
       = Returns "elsewhere" ∧
       ¬ path_held_transiently 1 t.
Proof.
  exists example_tagger. split; [vm_compute; reflexivity|].
  split; [reflexivity|].
  intros Hheld.
  specialize (Hheld example_mem (<[ 1%positive := "elsewhere" ]> example_mem)).
  assert (read_model example_mem example_tagger
          = read_model (<[ 1%positive := "elsewhere" ]> example_mem) example_tagger)
    as Hsame.
  { apply Hheld. intros a Ha. by rewrite lookup_insert_ne. }
  vm_compute in Hsame. discriminate Hsame.
Qed.

Lemma C5_construction_fails_with_LoadError_witness :
  ChainerTagger_ctor example_parse ∅ example_mem 1 = Raises LoadError.
Proof.
  apply (C5_construction_fails_with_LoadError
           example_parse example_infer ∅ example_mem 1 "model").
  - reflexivity.
  - left. reflexivity.
Defined.

Lemma C6_inventory_is_immutable_witness :
  TargetSize example_tagger = Size example_tagger.
Proof.
  apply (C6_inventory_is_immutable example_infer example_tagger
           [CallTargetSize; CallPredict ["dogs"; "run"]; CallTargetSize]).
  vm_compute. discriminate.
Defined.

(** The claim C6 fails on an inventory of 2^31 categories: [TargetSize()]
    is not its [Size()]. *)
Lemma C6_TargetSize_equals_Size_counterexample :
  TargetSize huge_tagger ≠ Size huge_tagger.
Proof. rewrite huge_tagger_TargetSize, huge_tagger_Size. discriminate. Qed.

Lemma C7_inventory_has_no_duplicates_witness :
  (∀ (t : ChainerTagger string) i j,
      ChainerTagger_ctor example_parse example_fs example_mem 1 = Returns t →
      int_range i → int_range j →
      0 ≤ i < Size t → 0 ≤ j < Size t → i ≠ j →
      TagAt t i ≠ TagAt t j) ∧
  (∀ content (a b : nat) line,
      example_fs !! ("model" +:+ "/target.txt") = Some content →
      a ≠ b →
      category_lines content !! a = Some line →
      category_lines content !! b = Some line →
      ChainerTagger_ctor example_parse example_fs example_mem 1
      = Raises LoadError).
Proof.
  apply (C7_inventory_has_no_duplicates
           example_parse example_fs example_mem 1 "model").
  reflexivity.
Defined.

Lemma C8_predict_empty_sentence_witness :
  ∃ buf, predict example_infer example_tagger ["dogs"; "run"] = Returns buf.
Proof.
  apply (C8_predict_empty_sentence example_infer example_tagger).
  discriminate.
Defined.

Lemma C9_category_list_location_witness :
  outcome_map targets_
    (ChainerTagger_ctor example_parse example_fs example_mem 1)
  = outcome_map targets_
      (ChainerTagger_ctor example_parse
         (<[ "model/other.txt" := "N" ]> example_fs)
         {[ 2%positive := "model" ]} 2).
Proof.
  apply (C9_category_list_location
           (load_category_list example_parse example_fs)
           (load_category_list example_parse
              (<[ "model/other.txt" := "N" ]> example_fs))
           example_mem {[ 2%positive := "model" ]} 1 2 "model").
  - reflexivity.
  - reflexivity.
  - vm_compute. reflexivity.
Defined.

Lemma C10_TargetSize_int_conversion_witness :
  TargetSize example_tagger = Size example_tagger ∧
  ∀ i, 0 ≤ i < Size example_tagger →
       int_range i ∧
       ∃ c, targets_ example_tagger !! Z.to_nat i = Some c ∧
            TagAt example_tagger i = Returns c.
Proof.
  apply (C10_TargetSize_int_conversion example_tagger).
  vm_compute. discriminate.
Defined.

(** * Further properties of the code of [chainer_tagger.h]

    What follows rests on the source alone: the constructor is taken over
    an arbitrary loader and [predict] does not enter. *)

Lemma string_length_app (s1 s2 : string) :
  String.length (s1 +:+ s2) = (String.length s1 + String.length s2)%nat.
Proof.
  induction s1 as [|a s1 IH]; [done|].
  change (String a s1 +:+ s2) with (String a (s1 +:+ s2)).
  simpl. by rewrite IH.
Qed.

(** Appending the same suffix to two strings keeps them apart. *)
Lemma string_app_inj_r (s p1 p2 : string) : p1 +:+ s = p2 +:+ s → p1 = p2.
Proof.
  revert p2. induction p1 as [|a p1 IH]; intros [|b p2] Heq; [done| | |].
  - apply (f_equal String.length) in Heq.
    rewrite !string_length_app in Heq. simpl in Heq. lia.
  - apply (f_equal String.length) in Heq.
    rewrite !string_length_app in Heq. simpl in Heq. lia.
  - change (String a (p1 +:+ s) = String b (p2 +:+ s)) in Heq.
    injection Heq as -> Heq. f_equal. by apply IH.
Qed.

Section Source.

Context {Category : Type}.

Implicit Types (t : ChainerTagger Category).
Implicit Types (load : string → outcome (list Category)).
Implicit Types (mem : gmap positive string) (model : positive).

Lemma ChainerTagger_ctor_with_Returns load mem model t :
  ChainerTagger_ctor_with load mem model = Returns t ↔
  ∃ path, mem !! model = Some path ∧ model_ t = model ∧
          load (path +:+ "/target.txt") = Returns (targets_ t).
Proof.
  unfold ChainerTagger_ctor_with. split.
  - destruct (mem !! model) as [path|]; [|done].
    destruct (load _) as [ts| |] eqn:Hload; [|done..].
    intros [= <-]. by exists path.
  - intros (path & -> & <- & ->). by destruct t.
Qed.

(** X1: a loop over [0 ≤ i < TargetSize()] never leaves the inventory.
    Whatever the size of [targets_], every such [i] is an [int] at which
    [TagAt] returns the element of [targets_] at position [i]. *)
Theorem TagAt_below_TargetSize t (i : Z) :
  0 ≤ i < TargetSize t →
  int_range i ∧
  ∃ c, targets_ t !! Z.to_nat i = Some c ∧ TagAt t i = Returns c.
Proof.
  intros Hi.
  pose proof (TargetSize_upper t). pose proof (TargetSize_le_Size t).
  assert (int_range i) as Hint by (unfold int_range, INT_MIN; lia).
  split; [done|]. apply TagAt_in_range; [lia|done].
Qed.

(** X2: for an [int] index, [TagAt] returns exactly when the index lies in
    [[0, targets_.size())], and what it returns is the element of
    [targets_] at that position. *)
Theorem TagAt_Returns_iff t (idx : Z) (c : Category) :
  int_range idx →
  Size t ≤ vector_max_size →
  TagAt t idx = Returns c ↔
  0 ≤ idx < Size t ∧ targets_ t !! Z.to_nat idx = Some c.
Proof.
  intros Hint Hfit. split.
  - intros Htag.
    destruct (decide (0 ≤ idx < Size t)) as [Hin|Hout].
    + split; [done|].
      destruct (TagAt_in_range t idx Hin Hint) as (c' & Hc' & Htag').
      congruence.
    + rewrite (TagAt_out_of_range t idx Hint Hfit Hout) in Htag. done.
  - intros [Hin Hc]. destruct Hint as [_ Hmax].
    apply TagAt_lookup; [lia|done].
Qed.

(** X3: the constructor hands the vector of the loader to [targets_] as
    it is.  When the loader returns [ts] for the file name built from
    the path, construction returns a backend whose size is the length of
    [ts] and whose [TagAt(i)] is the element of [ts] at position [i]:
    nothing is dropped, added or reordered. *)
Theorem ChainerTagger_ctor_with_inventory load mem model (path : string)
    (ts : list Category) :
  mem !! model = Some path →
  load (path +:+ "/target.txt") = Returns ts →
  ∃ t, ChainerTagger_ctor_with load mem model = Returns t ∧
       Size t = Z.of_nat (length ts) ∧
       ∀ i, 0 ≤ i < Z.of_nat (length ts) → int_range i →
            ∃ c, ts !! Z.to_nat i = Some c ∧ TagAt t i = Returns c.
Proof.
  intros Hpath Hload.
  exists {| model_ := model; targets_ := ts |}. split; [|split].
  - apply ChainerTagger_ctor_with_Returns. by exists path.
  - done.
  - intros i Hi Hint.
    by apply (TagAt_in_range {| model_ := model; targets_ := ts |}).
Qed.

(** X4: the constructor does not look at the vector it is given.  When
    the loader returns an empty vector, construction returns all the
    same; the backend has [TargetSize() = 0] and [TagAt] is undefined at
    every [int] index. *)
Theorem ChainerTagger_ctor_with_empty load mem model (path : string) :
  mem !! model = Some path →
  load (path +:+ "/target.txt") = Returns [] →
  ∃ t, ChainerTagger_ctor_with load mem model = Returns t ∧
       TargetSize t = 0 ∧
       ∀ idx, int_range idx → TagAt t idx = Undefined.
Proof.
  intros Hpath Hload.
  exists {| model_ := model; targets_ := [] |}. split; [|split].
  - apply ChainerTagger_ctor_with_Returns. by exists path.
  - done.
  - intros idx Hint. apply TagAt_out_of_range; [done| |].
    + unfold Size, vector_max_size. simpl. lia.
    + unfold Size. simpl. lia.
Qed.

(** X5: [model_] is the caller's string itself, not a copy.  After a
    construction that returned, what is read through [model_] is what
    the caller's string holds at the time of the read: its new contents
    once the caller has overwritten it, and nothing defined once the
    caller has destroyed it. *)
Theorem model_aliases_caller_string load mem model t :
  ChainerTagger_ctor_with load mem model = Returns t →
  (∀ mem', read_model mem' t = match mem' !! model with
                               | Some path => Returns path
                               | None => Undefined
                               end) ∧
  (∀ s, read_model (<[ model := s ]> mem) t = Returns s) ∧
  read_model (delete model mem) t = Undefined.
Proof.
  intros Hctor.
  apply ChainerTagger_ctor_with_Returns in Hctor as (path & _ & Hmodel & _).
  unfold read_model. rewrite Hmodel. split; [done|]. split.
  - intros s. by rewrite lookup_insert_eq.
  - by rewrite lookup_delete_eq.
Qed.

(** X6: the path is not normalised, so that two path strings that differ
    never name the same category list.  For any two such paths and any
    vector [ts] there is a loader on which construction from the first
    path returns the inventory [ts] and construction from the second
    raises [LoadError]. *)
Theorem distinct_paths_distinct_lists mem1 mem2 model1 model2
    (path1 path2 : string) (ts : list Category) :
  mem1 !! model1 = Some path1 →
  mem2 !! model2 = Some path2 →
  path1 ≠ path2 →
  ∃ load,
    outcome_map targets_ (ChainerTagger_ctor_with load mem1 model1)
    = Returns ts ∧
    ChainerTagger_ctor_with load mem2 model2 = Raises LoadError.
Proof.
  intros Hpath1 Hpath2 Hne.
  exists (λ file, if decide (file = path1 +:+ "/target.txt")
                  then Returns ts else Raises LoadError).
  unfold ChainerTagger_ctor_with. rewrite Hpath1, Hpath2. split.
  - by rewrite decide_True.
  - rewrite decide_False; [done|].
    intros Heq. by apply Hne, (string_app_inj_r "/target.txt").
Qed.

(** X8: the value [TargetSize()] returns.  It is always an [int], never
    more than the number of elements of [targets_], and differs from
    that number by a multiple of 2^32; it is negative exactly when the
    number, reduced modulo 2^32, is 2^31 or more. *)
Theorem TargetSize_value t :
  int_range (TargetSize t) ∧
  TargetSize t ≤ Size t ∧
  (∃ k, 0 ≤ k ∧ Size t = TargetSize t + k * 4294967296) ∧
  (TargetSize t < 0 ↔ 2147483648 ≤ Size t mod 4294967296).
Proof.
  pose proof (Size_nonneg t) as Hsize.
  unfold TargetSize, int_of_size_t, int_range, INT_MIN, INT_MAX.
  pose proof (Z.mod_pos_bound (Size t) 4294967296 eq_refl) as Hm.
  pose proof (Z.div_mod (Size t) 4294967296) as Hdiv.
  assert (0 ≤ Size t / 4294967296) as Hq by (apply Z.div_pos; lia).
  destruct (Z.ltb_spec (Size t mod 4294967296) 2147483648).
  - repeat split; try lia.
    exists (Size t / 4294967296). lia.
  - repeat split; try lia.
    exists (Size t / 4294967296 + 1). lia.
Qed.

End Source.

(** ** The further properties on concrete backends *)

Lemma TagAt_below_TargetSize_witness :
  int_range 2 ∧
  ∃ c, targets_ example_tagger !! Z.to_nat 2 = Some c ∧
       TagAt example_tagger 2 = Returns c.
Proof.
  apply (TagAt_below_TargetSize example_tagger 2).
  vm_compute. split; [discriminate|reflexivity].
Defined.

Lemma TagAt_Returns_iff_witness :
  TagAt example_tagger 1 = Returns "S/NP" ↔
  0 ≤ 1 < Size example_tagger ∧
  targets_ example_tagger !! Z.to_nat 1 = Some "S/NP".
Proof.
  apply (TagAt_Returns_iff example_tagger 1 "S/NP").
  - unfold int_range, INT_MIN, INT_MAX. lia.
  - vm_compute. discriminate.
Defined.

Lemma ChainerTagger_ctor_with_inventory_witness :
  ∃ t : ChainerTagger string,
    ChainerTagger_ctor_with (λ _, Returns ["S"; "NP"; "S"]) example_mem 1
    = Returns t ∧
    Size t = 3 ∧
    ∀ i, 0 ≤ i < 3 → int_range i →
         ∃ c, ["S"; "NP"; "S"] !! Z.to_nat i = Some c ∧ TagAt t i = Returns c.
Proof.
  apply (ChainerTagger_ctor_with_inventory
           (λ _, Returns ["S"; "NP"; "S"]) example_mem 1 "model"
           ["S"; "NP"; "S"]).
  - reflexivity.
  - reflexivity.
Defined.

Lemma ChainerTagger_ctor_with_empty_witness :
  ∃ t : ChainerTagger string,
    ChainerTagger_ctor_with (λ _, Returns []) example_mem 1 = Returns t ∧
    TargetSize t = 0 ∧
    ∀ idx, int_range idx → TagAt t idx = Undefined.
Proof.
  apply (ChainerTagger_ctor_with_empty (λ _, Returns []) example_mem 1 "model").
  - reflexivity.
  - reflexivity.
Defined.

Lemma model_aliases_caller_string_witness :
  (∀ mem', read_model mem' example_tagger
           = match mem' !! 1%positive with
             | Some path => Returns path
             | None => Undefined
             end) ∧
  (∀ s, read_model (<[ 1%positive := s ]> example_mem) example_tagger
        = Returns s) ∧
  read_model (delete 1%positive example_mem) example_tagger = Undefined.
Proof.
  apply (model_aliases_caller_string
           (λ _, Returns ["NP"; "S/NP"; "S\NP"]) example_mem 1 example_tagger).
  reflexivity.
Defined.

Lemma distinct_paths_distinct_lists_witness :
  ∃ load : string → outcome (list string),
    outcome_map targets_ (ChainerTagger_ctor_with load example_mem 1)
    = Returns ["NP"] ∧
    ChainerTagger_ctor_with load {[ 1%positive := "model/" ]} 1
    = Raises LoadError.
Proof.
  apply (distinct_paths_distinct_lists
           example_mem {[ 1%positive := "model/" ]} 1 1 "model" "model/" ["NP"]).
  - reflexivity.
  - reflexivity.
  - discriminate.
Defined.
